(** * Frame transport of the RPi screen mirror (rpi_screen_sender.py and
    pc_screen_receiver.py), shallow embedding.

    Bytes are [Byte.byte]; Python integers are [Z]; wall-clock readings of
    [time.time()] are exact rationals [Q].  The serial handle is modelled as
    an OS receive buffer plus the list of deliveries still to come: each call
    of [serial_port.read(n)] (timeout = 1 s) waits for at most one further
    delivery, so a delivery stands for what arrives within one read timeout. *)

From Stdlib Require Import Strings.String.
From Stdlib Require Import List ZArith QArith Lia Lqa Bool.
From Stdlib Require Import Strings.Byte.
Import ListNotations.
Import Corelib.Init.Datatypes.
Open Scope Z_scope.

(** ** struct.pack('>I', n) and struct.unpack('>I', b) *)

Definition byte_of_Z (z : Z) : Byte.byte :=
  match Byte.of_N (Z.to_N (Z.land z 255)) with
  | Some b => b
  | None => Byte.x00
  end.

Definition Z_of_byte (b : Byte.byte) : Z := Z.of_N (Byte.to_N b).

(** [struct.pack('>I', n)]: raises [struct.error] outside [0 <= n < 2^32]. *)
Definition pack_u32_be (n : Z) : option (list Byte.byte) :=
  if (0 <=? n) && (n <? 2 ^ 32) then
    Some [byte_of_Z (Z.shiftr n 24); byte_of_Z (Z.shiftr n 16);
          byte_of_Z (Z.shiftr n 8); byte_of_Z n]
  else None.

(** [struct.unpack('>I', b)[0]] on a 4-byte [b] (the only use in the code,
    guarded by [len(size_bytes) < 4: continue]). *)
Definition unpack_u32_be (b : list Byte.byte) : Z :=
  match b with
  | [b0; b1; b2; b3] =>
      Z_of_byte b0 * 2 ^ 24 + Z_of_byte b1 * 2 ^ 16
      + Z_of_byte b2 * 2 ^ 8 + Z_of_byte b3
  | _ => 0
  end.

(** ** Sender: ScreenSender.compress_and_send_frame (lines 87-98).
    The JPEG encoder is an external collaborator; [jpeg_bytes] is its output.
    The calls made on [serial_conn] are recorded in order; they are taken
    to succeed (a [write] that raises part-way is not modelled). *)

Inductive conn_op :=
| WriteOp (bs : list Byte.byte)
| FlushOp.

(** Returns the calls made on the connection and [data_size]; [None] is the
    [struct.error] raised by [struct.pack] before anything is written. *)
Definition compress_and_send_frame (jpeg_bytes : list Byte.byte)
  : option (list conn_op * Z) :=
  let data_size := Z.of_nat (length jpeg_bytes) in
  match pack_u32_be data_size with
  | None => None
  | Some size_bytes => Some ([WriteOp size_bytes; WriteOp jpeg_bytes; FlushOp], data_size)
  end.

(** Bytes put on the wire by a sequence of calls. *)
Fixpoint wire_bytes (ops : list conn_op) : list Byte.byte :=
  match ops with
  | [] => []
  | WriteOp bs :: rest => bs ++ wire_bytes rest
  | FlushOp :: rest => wire_bytes rest
  end.

Definition encode_envelope (payload : list Byte.byte) : option (list Byte.byte) :=
  match compress_and_send_frame payload with
  | Some (ops, _) => Some (wire_bytes ops)
  | None => None
  end.

(** ** Pacer: ScreenSender.sender_loop lines 142-146. *)

Definition TARGET_FPS : Z := 15.
Definition FRAME_INTERVAL : Q := 1 # 15.

(** Python's [max(a, b)]: keeps [a] unless [b] is strictly greater. *)
Definition py_max (a b : Q) : Q := if Qlt_le_dec a b then b else a.

Definition sleep_time (frame_interval process_time : Q) : Q :=
  py_max 0 (frame_interval - process_time).

(** ** Serial handle of the receiver (pyserial, timeout = 1). *)

Inductive event :=
| Deliver (bs : list Byte.byte)   (* bytes arriving within one read timeout *)
| Fail.                           (* SerialException: device gone *)

Record port := mk_port {
  port_buf : list Byte.byte;      (* bytes received, not yet read *)
  port_pending : list event;      (* what the line delivers next *)
  port_log : list Z               (* sizes requested by read(), in order *)
}.

(** [serial_port.read(n)]: returns at once when [n] bytes are buffered,
    otherwise waits one timeout for the next delivery and returns at most
    [n] bytes; [None] is a raised SerialException. *)
Definition serial_read (p : port) (n : Z) : option (list Byte.byte * port) :=
  let k := Z.to_nat n in
  let log := port_log p ++ [n] in
  if (k <=? length (port_buf p))%nat then
    Some (firstn k (port_buf p), mk_port (skipn k (port_buf p)) (port_pending p) log)
  else
    match port_pending p with
    | [] => Some (firstn k (port_buf p), mk_port (skipn k (port_buf p)) [] log)
    | Deliver d :: rest =>
        let b := port_buf p ++ d in
        Some (firstn k b, mk_port (skipn k b) rest log)
    | Fail :: _ => None
    end.

(** ** Receiver: FrameReceiverThread.run (pc_screen_receiver.py 39-95).
    [Image.open] is the external image decoder [decode]; [None] is the
    exception it raises on bytes it cannot identify. *)

Section Receiver.

Variable Image : Type.
Variable decode : list Byte.byte -> option Image.

Inductive err_kind :=
| SerialError        (* "Serial error: ..."  : ends the loop *)
| ProcessingError.   (* "Error processing frame: ..." : loop goes on *)

(** Signals emitted by the thread, in order. *)
Inductive out :=
| OFrame (img : Image)        (* frame_received.emit(image) *)
| OError (e : err_kind)       (* error_occurred.emit(...) *)
| OFps (fps : Q).             (* fps_update.emit(fps) *)

(** One run of the body of [while remaining > 0 and self.running]
    (lines 63-67). *)
Inductive body_result :=
| BodyCont (p : port) (remaining : Z) (jpeg_data : list Byte.byte)
| BodyBreak (p : port)
| BodyRaise.

Definition payload_body (p : port) (remaining : Z) (jpeg_data : list Byte.byte)
  : body_result :=
  match serial_read p (Z.min remaining 4096) with
  | None => BodyRaise
  | Some ([], p') => BodyBreak p'
  | Some (chunk, p') =>
      BodyCont p' (remaining - Z.of_nat (length chunk)) (jpeg_data ++ chunk)
  end.

(** The payload loop (lines 59-67), [self.running] staying true.  Each
    iteration that goes on lowers [remaining] by at least one, so the fuel
    [S (Z.to_nat frame_size)] given below is never the reason it stops. *)
Fixpoint read_payload (fuel : nat) (p : port) (remaining : Z)
    (jpeg_data : list Byte.byte) : option (list Byte.byte * port * Z) :=
  match fuel with
  | O => Some (jpeg_data, p, remaining)
  | S f =>
      if 0 <? remaining then
        match payload_body p remaining jpeg_data with
        | BodyRaise => None
        | BodyBreak p' => Some (jpeg_data, p', remaining)
        | BodyCont p' r' d' => read_payload f p' r' d'
        end
      else Some (jpeg_data, p, remaining)
  end.

(** The payload loop with the whole guard of line 62,
    [while remaining > 0 and self.running].  [self.running] is cleared by
    [stop()] from the GUI thread; [running k] is the value the guard reads
    at its [k]-th evaluation.  [read_payload] above is the case where no
    stop is requested. *)
Fixpoint read_payload_running (fuel : nat) (running : nat -> bool) (p : port)
    (remaining : Z) (jpeg_data : list Byte.byte) : option (list Byte.byte * port * Z) :=
  match fuel with
  | O => Some (jpeg_data, p, remaining)
  | S f =>
      if (0 <? remaining) && running O then
        match payload_body p remaining jpeg_data with
        | BodyRaise => None
        | BodyBreak p' => Some (jpeg_data, p', remaining)
        | BodyCont p' r' d' => read_payload_running f (fun k => running (S k)) p' r' d'
        end
      else Some (jpeg_data, p, remaining)
  end.

(** Lines 51-69 up to the decode: [None] is a raised SerialException;
    [Some (None, p)] is an iteration that passes nothing to the decoder
    (short header, [continue]; or short payload); [Some (Some d, p)] hands
    [d] to [Image.open]. *)
Definition recv_frame_bytes (p : port) : option (option (list Byte.byte) * port) :=
  match serial_read p 4 with
  | None => None
  | Some (size_bytes, p1) =>
      if (length size_bytes <? 4)%nat then Some (None, p1)
      else
        let frame_size := unpack_u32_be size_bytes in
        match read_payload (S (Z.to_nat frame_size)) p1 frame_size [] with
        | None => None
        | Some (jpeg_data, p2, _) =>
            if Z.of_nat (length jpeg_data) =? frame_size
            then Some (Some jpeg_data, p2)
            else Some (None, p2)
        end
  end.

(** Rate accounting (lines 76-84). *)
Record fps_state := mk_fps {
  frames_received : Z;
  start_time : Q;
  last_fps_update : Q
}.

Inductive fps_result :=
| NoFps
| FpsEmit (fps : Q)
| FpsDivZero.   (* ZeroDivisionError of frames_received / elapsed *)

Definition fps_tick (st : fps_state) (current_time : Q) : fps_state * fps_result :=
  let n := frames_received st + 1 in
  let elapsed := (current_time - start_time st)%Q in
  if Qle_bool 1 (current_time - last_fps_update st) then
    if Qeq_bool elapsed 0 then (mk_fps n (start_time st) (last_fps_update st), FpsDivZero)
    else (mk_fps n (start_time st) current_time, FpsEmit (inject_Z n / elapsed)%Q)
  else (mk_fps n (start_time st) (last_fps_update st), NoFps).

Definition fps_outs (r : fps_result) : list out :=
  match r with
  | NoFps => []
  | FpsEmit q => [OFps q]
  | FpsDivZero => [OError ProcessingError]
  end.

(** Successive readings of [time.time()]. *)
Definition clock_now (clk : list Q) : Q * list Q :=
  match clk with
  | [] => (0%Q, [])
  | t :: rest => (t, rest)
  end.

Record rx_state := mk_rx {
  rx_port : port;
  rx_fps : fps_state;
  rx_clock : list Q
}.

(** One iteration of [while self.running]; [None] means the loop ended. *)
Definition rx_iter (s : rx_state) : list out * option rx_state :=
  match recv_frame_bytes (rx_port s) with
  | None => ([OError SerialError], None)
  | Some (None, p) => ([], Some (mk_rx p (rx_fps s) (rx_clock s)))
  | Some (Some jpeg_data, p) =>
      match decode jpeg_data with
      | None => ([OError ProcessingError], Some (mk_rx p (rx_fps s) (rx_clock s)))
      | Some image =>
          let '(current_time, clk) := clock_now (rx_clock s) in
          let '(fs, r) := fps_tick (rx_fps s) current_time in
          (OFrame image :: fps_outs r, Some (mk_rx p fs clk))
      end
  end.

Fixpoint rx_run (fuel : nat) (s : rx_state) : list out :=
  match fuel with
  | O => []
  | S f =>
      let '(o, s') := rx_iter s in
      o ++ match s' with
           | None => []
           | Some s'' => rx_run f s''
           end
  end.

(** The thread after [serial.Serial(...)] opened the port: the first
    [time.time()] reading is [start_time] and [last_fps_update]. *)
Definition rx_init (p : port) (clk : list Q) : rx_state :=
  let '(t0, clk') := clock_now clk in
  mk_rx p (mk_fps 0 t0 t0) clk'.

Definition receiver_run (fuel : nat) (p : port) (clk : list Q) : list out :=
  rx_run fuel (rx_init p clk).

End Receiver.

(** The receiver's envelope decoding: the bytes [recv_frame_bytes] hands to
    the decoder when [bs] is what the port holds. *)
Definition decode_envelope (bs : list Byte.byte) : option (list Byte.byte) :=
  match recv_frame_bytes (mk_port bs [] []) with
  | Some (Some d, _) => Some d
  | _ => None
  end.

Definition port_of (evs : list event) : port := mk_port [] evs [].

Arguments OFrame {Image} img.
Arguments OError {Image} e.
Arguments OFps {Image} fps.
Arguments fps_outs {Image} r.
Arguments rx_iter {Image} decode s.
Arguments rx_run {Image} decode fuel s.
Arguments receiver_run {Image} decode fuel p clk.

(** Times at which a sequence of successfully decoded frames, stamped
    [ts], makes the thread emit [fps_update]. *)
Fixpoint fps_emit_times (st : fps_state) (ts : list Q) : list Q :=
  match ts with
  | [] => []
  | t :: rest =>
      let '(st', r) := fps_tick st t in
      match r with
      | FpsEmit _ => t :: fps_emit_times st' rest
      | _ => fps_emit_times st' rest
      end
  end.

(** Each time is at least one second after the one before, starting from
    [prev]. *)
Fixpoint spaced (prev : Q) (l : list Q) : Prop :=
  match l with
  | [] => True
  | t :: rest => (1 <= t - prev)%Q /\ spaced t rest
  end.

(** ** Sender loop: ScreenSender.sender_loop (rpi_screen_sender.py 116-157),
    from the opened port on.  [frames] are the JPEG payloads that capture and
    encoding produce while [self.running] holds; when the list ends the loop
    head sees [running] false.  Each iteration reads [time.time()] three
    times: [frame_start], for [elapsed], for [process_time]. *)
Record sender := mk_sender {
  frames_sent : Z;
  sender_start_time : Q;
  sender_clock : list Q;
  serial_ops : list conn_op;       (* calls made on [ser], in order *)
  status_reports : list (Z * Q);   (* (frames_sent, elapsed) of each report *)
  cycles : list (Q * Q)            (* (process_time, time slept) *)
}.

(** [self.frames_sent = 0; self.start_time = time.time()] *)
Definition sender_loop_start (clk : list Q) : sender :=
  let '(t0, clk') := clock_now clk in mk_sender 0 t0 clk' [] [] [].

(** Lines 143-146: [time.sleep] is called only for a positive duration. *)
Definition pace (st : sender) (frame_start : Q) : sender :=
  let '(now, clk) := clock_now (sender_clock st) in
  let process_time := (now - frame_start)%Q in
  let sl := sleep_time FRAME_INTERVAL process_time in
  let slept := if Qlt_le_dec 0 sl then sl else 0%Q in
  mk_sender (frames_sent st) (sender_start_time st) clk (serial_ops st)
    (status_reports st) (cycles st ++ [(process_time, slept)]).

(** One iteration of [while self.running]; [false] means an exception left
    the loop: [struct.error] in [compress_and_send_frame], or the
    ZeroDivisionError of [self.frames_sent/elapsed] in the status message. *)
Definition sender_iter (st : sender) (jpeg_bytes : list Byte.byte) : sender * bool :=
  let '(frame_start, clk1) := clock_now (sender_clock st) in
  match compress_and_send_frame jpeg_bytes with
  | None =>
      (mk_sender (frames_sent st) (sender_start_time st) clk1 (serial_ops st)
         (status_reports st) (cycles st), false)
  | Some (ops, _) =>
      let n := frames_sent st + 1 in
      let '(now, clk2) := clock_now clk1 in
      let elapsed := (now - sender_start_time st)%Q in
      if n mod 30 =? 0 then
        if Qeq_bool elapsed 0 then
          (mk_sender n (sender_start_time st) clk2 (serial_ops st ++ ops)
             (status_reports st) (cycles st), false)
        else
          (pace (mk_sender n (sender_start_time st) clk2 (serial_ops st ++ ops)
                   (status_reports st ++ [(n, elapsed)]) (cycles st)) frame_start, true)
      else
        (pace (mk_sender n (sender_start_time st) clk2 (serial_ops st ++ ops)
                 (status_reports st) (cycles st)) frame_start, true)
  end.

(** The loop; the flag tells whether it ended on an exception. *)
Fixpoint sender_run (st : sender) (frames : list (list Byte.byte)) : sender * bool :=
  match frames with
  | [] => (st, false)
  | jpeg_bytes :: rest =>
      let '(st', ok) := sender_iter st jpeg_bytes in
      if ok then sender_run st' rest else (st', true)
  end.

(** Calls [compress_and_send_frame] makes for one payload. *)
Definition sent_ops (jpeg_bytes : list Byte.byte) : list conn_op :=
  match compress_and_send_frame jpeg_bytes with
  | Some (ops, _) => ops
  | None => []
  end.

(** Frames among the receiver's signals, and payloads the decoder accepts. *)
Fixpoint frames_of {Image : Type} (o : list (out Image)) : list Image :=
  match o with
  | [] => []
  | OFrame img :: rest => img :: frames_of rest
  | _ :: rest => frames_of rest
  end.

Definition decoded {Image : Type} (decode : list Byte.byte -> option Image)
    (payloads : list (list Byte.byte)) : list Image :=
  flat_map (fun d => match decode d with Some img => [img] | None => [] end) payloads.

(** Bytes the port will hand out, in order, up to a failure. *)
Fixpoint events_bytes (evs : list event) : list Byte.byte :=
  match evs with
  | [] => []
  | Deliver d :: rest => d ++ events_bytes rest
  | Fail :: _ => []
  end.

Definition stream_of (p : port) : list Byte.byte := port_buf p ++ events_bytes (port_pending p).

(** ** MainWindow (pc_screen_receiver.py 102-385): the port list and the
    connection state.  Qt widgets are records of the values the code sets
    and reads. *)
Module MainWindow.

(** Python's [pat in s] on strings. *)
Fixpoint py_contains (pat s : string) : bool :=
  String.prefix pat s ||
  match s with
  | EmptyString => false
  | String _ s' => py_contains pat s'
  end.

(** The state [disconnect_port] and [handle_error] touch. *)
Record ui := mk_ui {
  has_receiver : bool;            (* self.receiver_thread is not None *)
  connect_text : string;
  connection_label : string;
  fps_label : string;
  screenshot_enabled : bool;
  display_shown : bool;           (* display_label shown, welcome hidden *)
  status_message : string
}.

Definition disconnect_port (u : ui) : ui :=
  mk_ui false "Start Receiving" "Disconnected" "FPS: --" false false (status_message u).

(** [self.status_bar.showMessage(msg, timeout)]. *)
Definition show_message (u : ui) (msg : string) : ui :=
  mk_ui (has_receiver u) (connect_text u) (connection_label u) (fps_label u)
    (screenshot_enabled u) (display_shown u) msg.

Definition handle_error (u : ui) (error_message : string) : ui :=
  let u1 := show_message u error_message in
  if py_contains "Serial error" error_message then disconnect_port u1 else u1.

(** A QComboBox: its items and current index (-1: none). *)
Record combo := mk_combo {
  items : list string;
  current_index : Z
}.

Definition current_text (c : combo) : string :=
  if current_index c <? 0 then ""
  else match nth_error (items c) (Z.to_nat (current_index c)) with
       | Some s => s
       | None => ""
       end.

(** [addItem]: the first item added to an empty box becomes current. *)
Definition add_item (c : combo) (s : string) : combo :=
  mk_combo (items c ++ [s]) (match items c with [] => 0 | _ => current_index c end).

(** [findText] (exact, case-sensitive): first index, or -1. *)
Fixpoint find_text (l : list string) (s : string) : Z :=
  match l with
  | [] => -1
  | x :: rest =>
      if String.eqb x s then 0
      else let i := find_text rest s in if i <? 0 then -1 else i + 1
  end.

(** Returns the box and whether the connect button is enabled. *)
Definition update_port_list (c : combo) (ports : list string) : combo * bool :=
  let current_port := current_text c in
  let cleared := mk_combo [] (-1) in
  match ports with
  | [] => (add_item cleared "No ports available", false)
  | _ =>
      let c1 := fold_left add_item ports cleared in
      let index := find_text (items c1) current_port in
      (if 0 <=? index then mk_combo (items c1) index else c1, true)
  end.

(** The port a receiver thread is started on, or [None] for the warning. *)
Definition connect_to_port (c : combo) : option string :=
  let port := current_text c in
  if String.eqb port "" || String.eqb port "No ports available" then None else Some port.

End MainWindow.

(** * Lemmas *)

Lemma Z_of_byte_of_Z (z : Z) : Z_of_byte (byte_of_Z z) = z mod 256.
Proof.
  unfold Z_of_byte, byte_of_Z.
  assert (Hl : Z.land z 255 = z mod 256)
    by (change 255 with (Z.ones 8); rewrite Z.land_ones by lia; reflexivity).
  assert (Hb : 0 <= z mod 256 < 256) by (apply Z.mod_pos_bound; lia).
  rewrite Hl.
  destruct (Byte.of_N (Z.to_N (z mod 256))) as [b|] eqn:E.
  - apply Byte.to_of_N in E. rewrite E. apply Z2N.id. lia.
  - apply Byte.of_N_None_iff in E. lia.
Qed.

Lemma pack_u32_be_spec (n : Z) :
  0 <= n < 2 ^ 32 ->
  exists hdr, pack_u32_be n = Some hdr /\ length hdr = 4%nat /\ unpack_u32_be hdr = n.
Proof.
  intros Hn. unfold pack_u32_be.
  replace ((0 <=? n) && (n <? 2 ^ 32)) with true
    by (symmetry; apply andb_true_iff; split; [apply Z.leb_le | apply Z.ltb_lt]; lia).
  eexists; split; [reflexivity|split; [reflexivity|]].
  cbn [unpack_u32_be]. rewrite !Z_of_byte_of_Z, !Z.shiftr_div_pow2 by lia.
  pose proof (Z.div_mod n 256 ltac:(lia)) as E0.
  pose proof (Z.div_mod (n / 256) 256 ltac:(lia)) as E1.
  pose proof (Z.div_mod (n / 256 / 256) 256 ltac:(lia)) as E2.
  rewrite !Z.div_div in E1, E2 by lia.
  change (2 ^ 8) with 256. change (2 ^ 16) with (256 * 256).
  change (2 ^ 24) with (256 * 256 * 256).
  assert (Hq : 0 <= n / (256 * 256 * 256) < 256)
    by (split; [apply Z.div_pos | apply Z.div_lt_upper_bound]; lia).
  rewrite (Z.mod_small (n / (256 * 256 * 256)) 256) by lia.
  rewrite !Z.div_div in E2 by lia.
  lia.
Qed.

Lemma serial_read_buffered (buf : list Byte.byte) (evs : list event) (log : list Z) (n : Z) :
  (Z.to_nat n <= length buf)%nat ->
  serial_read (mk_port buf evs log) n =
    Some (firstn (Z.to_nat n) buf, mk_port (skipn (Z.to_nat n) buf) evs (log ++ [n])).
Proof.
  intros H. unfold serial_read; cbn [port_buf port_pending port_log].
  apply Nat.leb_le in H. rewrite H. reflexivity.
Qed.

Lemma serial_read_short_len (p p' : port) (n : Z) (c : list Byte.byte) :
  serial_read p n = Some (c, p') ->
  (length c <= Z.to_nat n)%nat /\ port_log p' = port_log p ++ [n].
Proof.
  unfold serial_read.
  destruct (Z.to_nat n <=? length (port_buf p))%nat.
  - intros E; injection E as <- <-. rewrite length_firstn. split; [lia | reflexivity].
  - destruct (port_pending p) as [|[d|] rest].
    + intros E; injection E as <- <-. rewrite length_firstn. split; [lia | reflexivity].
    + intros E; injection E as <- <-. rewrite length_firstn. split; [lia | reflexivity].
    + discriminate.
Qed.

Lemma payload_body_buffered (buf : list Byte.byte) (evs : list event) (log : list Z)
    (rem : Z) (acc : list Byte.byte) :
  0 < rem ->
  (Z.to_nat (Z.min rem 4096) <= length buf)%nat ->
  payload_body (mk_port buf evs log) rem acc =
    BodyCont (mk_port (skipn (Z.to_nat (Z.min rem 4096)) buf) evs (log ++ [Z.min rem 4096]))
      (rem - Z.min rem 4096) (acc ++ firstn (Z.to_nat (Z.min rem 4096)) buf).
Proof.
  intros Hr Hk. unfold payload_body. rewrite serial_read_buffered by exact Hk.
  assert (Hl : length (firstn (Z.to_nat (Z.min rem 4096)) buf) = Z.to_nat (Z.min rem 4096))
    by (rewrite length_firstn; lia).
  destruct (firstn (Z.to_nat (Z.min rem 4096)) buf) as [|c cs] eqn:E.
  - cbn in Hl. lia.
  - cbv beta iota. rewrite Hl. f_equal. lia.
Qed.

(** The payload loop reading [B] out of a buffer that holds all of it. *)
Lemma read_payload_full (fuel : nat) (B rest : list Byte.byte) (evs : list event)
    (log : list Z) (acc : list Byte.byte) :
  (length B < fuel)%nat ->
  exists log',
    read_payload fuel (mk_port (B ++ rest) evs log) (Z.of_nat (length B)) acc =
      Some (acc ++ B, mk_port rest evs log', 0).
Proof.
  revert B acc log. induction fuel as [|f IH]; intros B acc log Hf; [lia|].
  cbn [read_payload].
  destruct B as [|b B'].
  - exists log. rewrite app_nil_r. reflexivity.
  - set (B := b :: B') in *.
    assert (HB : 0 < Z.of_nat (length B)) by (cbn; lia).
    replace (0 <? Z.of_nat (length B)) with true by (symmetry; apply Z.ltb_lt; lia).
    set (k := Z.to_nat (Z.min (Z.of_nat (length B)) 4096)).
    assert (Hk : (1 <= k <= length B)%nat) by (unfold k; lia).
    rewrite payload_body_buffered by (rewrite ?length_app; lia).
    fold k.
    rewrite firstn_app, skipn_app.
    replace (k - length B)%nat with 0%nat by lia.
    rewrite firstn_O, skipn_O, app_nil_r.
    destruct (IH (skipn k B) (acc ++ firstn k B) (log ++ [Z.min (Z.of_nat (length B)) 4096]))
      as [log' Hlog']; [rewrite length_skipn; lia|].
    exists log'.
    replace (Z.of_nat (length B) - Z.min (Z.of_nat (length B)) 4096)
      with (Z.of_nat (length (skipn k B))) by (rewrite length_skipn; unfold k; lia).
    rewrite Hlog', <- app_assoc, firstn_skipn. reflexivity.
Qed.

Lemma firstn_skipn_hdr (hdr rest : list Byte.byte) :
  length hdr = 4%nat ->
  firstn (Z.to_nat 4) (hdr ++ rest) = hdr /\ skipn (Z.to_nat 4) (hdr ++ rest) = rest.
Proof.
  intros H. change (Z.to_nat 4) with 4%nat. rewrite <- H.
  rewrite firstn_app, skipn_app, Nat.sub_diag, firstn_O, skipn_O, app_nil_r,
    firstn_all, skipn_all. split; reflexivity.
Qed.

(** An envelope written by the sender, lying in the receive buffer, is read
    back whole by one iteration of the receive loop. *)
Lemma recv_envelope (P rest : list Byte.byte) (evs : list event) (log : list Z) :
  Z.of_nat (length P) < 2 ^ 32 ->
  exists E, encode_envelope P = Some E /\
    exists log', recv_frame_bytes (mk_port (E ++ rest) evs log) = Some (Some P, mk_port rest evs log').
Proof.
  intros HP.
  destruct (pack_u32_be_spec (Z.of_nat (length P))) as [hdr [Hp [Hl Hu]]]; [lia|].
  unfold encode_envelope, compress_and_send_frame. rewrite Hp.
  eexists; split; [reflexivity|]. cbn [wire_bytes]. rewrite app_nil_r.
  unfold recv_frame_bytes. rewrite <- app_assoc.
  rewrite serial_read_buffered by (rewrite length_app; cbn; lia).
  destruct (firstn_skipn_hdr hdr (P ++ rest) Hl) as [-> ->].
  rewrite Hl. cbn [Nat.ltb Nat.leb]. rewrite Hu.
  destruct (read_payload_full (S (Z.to_nat (Z.of_nat (length P)))) P rest evs (log ++ [4]) [])
    as [log' Hr]; [lia|].
  rewrite Hr, Z.eqb_refl. exists log'. reflexivity.
Qed.

Ltac short_read_case k :=
  unfold k in *; unfold payload_body, serial_read; cbn [port_buf port_pending port_log length] in *;
  rewrite (proj2 (Nat.leb_gt _ _)) by lia.

(** The payload loop when fewer than [rem] bytes are buffered and the line
    then stays silent: it reads what is there and stops on an empty read. *)
Lemma read_payload_stall (fuel : nat) (B : list Byte.byte) (log : list Z)
    (rem : Z) (acc : list Byte.byte) :
  Z.of_nat (length B) < rem -> (Z.to_nat rem < fuel)%nat ->
  exists log',
    read_payload fuel (mk_port B [] log) rem acc =
      Some (acc ++ B, mk_port [] [] log', rem - Z.of_nat (length B)).
Proof.
  revert B rem acc log. induction fuel as [|f IH]; intros B rem acc log HB Hf; [lia|].
  cbn [read_payload].
  replace (0 <? rem) with true by (symmetry; apply Z.ltb_lt; lia).
  set (k := Z.to_nat (Z.min rem 4096)).
  destruct (Nat.le_gt_cases k (length B)) as [Hk|Hk].
  - rewrite payload_body_buffered by (unfold k in *; lia). fold k.
    destruct (IH (skipn k B) (rem - Z.min rem 4096) (acc ++ firstn k B)
                (log ++ [Z.min rem 4096])) as [log' Hr];
      [rewrite length_skipn; unfold k in *; lia | unfold k in *; lia |].
    exists log'. rewrite Hr, <- app_assoc, firstn_skipn.
    rewrite length_skipn. f_equal. f_equal. unfold k in *; lia.
  - short_read_case k.
    rewrite (firstn_all2 B) by lia. rewrite (skipn_all2 B) by lia.
    destruct B as [|b B'].
    + exists (log ++ [Z.min rem 4096]). cbv beta iota. rewrite app_nil_r.
      cbn [length Z.of_nat]. rewrite Z.sub_0_r. reflexivity.
    + cbv beta iota.
      destruct (IH [] (rem - Z.of_nat (length (b :: B'))) (acc ++ b :: B')
                  (log ++ [Z.min rem 4096])) as [log' Hr]; [cbn in *; lia | cbn in *; lia |].
      exists log'. rewrite Hr, app_nil_r. cbn [length]. f_equal. f_equal. lia.
Qed.

(** The same loop when the line fails before the payload is complete. *)
Lemma read_payload_fail (fuel : nat) (B : list Byte.byte) (evs : list event)
    (log : list Z) (rem : Z) (acc : list Byte.byte) :
  Z.of_nat (length B) < rem -> (Z.to_nat rem < fuel)%nat ->
  read_payload fuel (mk_port B (Fail :: evs) log) rem acc = None.
Proof.
  revert B rem acc log. induction fuel as [|f IH]; intros B rem acc log HB Hf; [lia|].
  cbn [read_payload].
  replace (0 <? rem) with true by (symmetry; apply Z.ltb_lt; lia).
  set (k := Z.to_nat (Z.min rem 4096)).
  destruct (Nat.le_gt_cases k (length B)) as [Hk|Hk].
  - rewrite payload_body_buffered by (unfold k in *; lia). fold k.
    apply IH; [rewrite length_skipn; unfold k in *; lia | unfold k in *; lia].
  - short_read_case k. reflexivity.
Qed.

(** Nothing buffered and nothing coming: the first payload read returns
    empty and the loop breaks. *)
Lemma read_payload_empty_stall (f : nat) (log : list Z) (rem : Z) (acc : list Byte.byte) :
  0 < rem ->
  read_payload (S f) (mk_port [] [] log) rem acc =
    Some (acc, mk_port [] [] (log ++ [Z.min rem 4096]), rem).
Proof.
  intros Hr. cbn [read_payload].
  replace (0 <? rem) with true by (symmetry; apply Z.ltb_lt; lia).
  set (k := Z.to_nat (Z.min rem 4096)).
  assert (Hk : (0 < k)%nat) by (unfold k; lia).
  short_read_case k.
  rewrite firstn_nil, skipn_nil. reflexivity.
Qed.

(** One iteration of the payload loop keeps [len(jpeg_data) + remaining]
    fixed and [remaining] non-negative. *)
Lemma payload_body_inv (p p' : port) (rem rem' L : Z) (acc acc' : list Byte.byte) :
  Z.of_nat (length acc) + rem = L -> 0 < rem ->
  payload_body p rem acc = BodyCont p' rem' acc' ->
  Z.of_nat (length acc') + rem' = L /\ 0 <= rem' < rem /\
  port_log p' = port_log p ++ [Z.min rem 4096] /\
  (length acc' - length acc <= Z.to_nat (Z.min rem 4096))%nat.
Proof.
  intros HL Hr. unfold payload_body.
  destruct (serial_read p (Z.min rem 4096)) as [[c p1]|] eqn:E; [|discriminate].
  apply serial_read_short_len in E as [Hc Hlog].
  destruct c as [|c0 cs]; [discriminate|].
  intros H; injection H as <- <- <-.
  rewrite length_app. cbn [length] in *. rewrite ?Zpos_P_of_succ_nat in *. repeat split; try lia. exact Hlog.
Qed.

Lemma read_payload_inv (fuel : nat) (p p' : port) (rem rem' L : Z)
    (acc acc' : list Byte.byte) :
  (Z.to_nat rem < fuel)%nat -> Z.of_nat (length acc) + rem = L -> 0 <= rem ->
  read_payload fuel p rem acc = Some (acc', p', rem') ->
  Z.of_nat (length acc') + rem' = L /\ 0 <= rem' /\
  (rem' = 0 \/ exists q, payload_body q rem' acc' = BodyBreak p').
Proof.
  revert p rem acc. induction fuel as [|f IH]; intros p rem acc Hf HL Hr; [lia|].
  cbn [read_payload].
  destruct (0 <? rem) eqn:Hlt.
  - apply Z.ltb_lt in Hlt.
    destruct (payload_body p rem acc) as [p1 r1 a1|p1|] eqn:Eb.
    + destruct (payload_body_inv p p1 rem r1 L acc a1 HL Hlt Eb) as (HL1 & Hr1 & _ & _).
      apply IH; [lia | exact HL1 | lia].
    + intros H; injection H as <- <- <-.
      repeat split; [lia | lia |]. right. exists p. exact Eb.
    + discriminate.
  - apply Z.ltb_ge in Hlt. intros H; injection H as <- <- <-.
    repeat split; lia.
Qed.

Lemma encode_envelope_len (P E : list Byte.byte) :
  encode_envelope P = Some E -> Z.of_nat (length P) < 2 ^ 32.
Proof.
  unfold encode_envelope, compress_and_send_frame, pack_u32_be.
  destruct ((0 <=? Z.of_nat (length P)) && (Z.of_nat (length P) <? 2 ^ 32)) eqn:E0;
    [|discriminate].
  intros _. apply andb_true_iff in E0 as [_ E0]. apply Z.ltb_lt in E0. exact E0.
Qed.

(** A 4-byte header followed by a silent line: the receiver issues one
    payload read of [min(L, 4096)] bytes, gets nothing and goes back to
    waiting for a header, with no signal emitted. *)
Lemma rx_iter_header_stall (Image : Type) (decode : list Byte.byte -> option Image)
    (hdr : list Byte.byte) (log : list Z) (fs : fps_state) (clk : list Q) :
  length hdr = 4%nat -> 0 < unpack_u32_be hdr ->
  rx_iter decode (mk_rx (mk_port hdr [] log) fs clk) =
    ([], Some (mk_rx (mk_port [] [] (log ++ [4; Z.min (unpack_u32_be hdr) 4096])) fs clk)).
Proof.
  intros Hl HL. unfold rx_iter, recv_frame_bytes. cbn [rx_port].
  rewrite <- (app_nil_r hdr) at 1.
  rewrite serial_read_buffered by (rewrite length_app; cbn; lia).
  destruct (firstn_skipn_hdr hdr [] Hl) as [-> ->].
  rewrite Hl. cbn [Nat.ltb Nat.leb].
  rewrite read_payload_empty_stall by exact HL.
  cbn [length Z.of_nat].
  replace (0 =? unpack_u32_be hdr) with false by (symmetry; apply Z.eqb_neq; lia).
  rewrite <- app_assoc. reflexivity.
Qed.

Lemma fps_tick_spec (st : fps_state) (t : Q) :
  match fps_tick st t with
  | (st', FpsEmit v) =>
      (1 <= t - last_fps_update st)%Q /\ last_fps_update st' = t /\
      frames_received st' = frames_received st + 1 /\ start_time st' = start_time st /\
      v = (inject_Z (frames_received st') / (t - start_time st))%Q
  | (st', _) =>
      last_fps_update st' = last_fps_update st /\
      frames_received st' = frames_received st + 1 /\ start_time st' = start_time st
  end.
Proof.
  unfold fps_tick.
  destruct (Qle_bool 1 (t - last_fps_update st)) eqn:E1.
  - destruct (Qeq_bool (t - start_time st) 0); cbn [frames_received last_fps_update start_time].
    + repeat split.
    + apply Qle_bool_iff in E1. repeat split; exact E1.
  - cbn. repeat split.
Qed.

(** [read_payload] is the payload loop while no stop is requested. *)
Lemma read_payload_running_true (fuel : nat) (p : port) (rem : Z) (acc : list Byte.byte) :
  read_payload_running fuel (fun _ => true) p rem acc = read_payload fuel p rem acc.
Proof.
  revert p rem acc. induction fuel as [|f IH]; intros p rem acc; [reflexivity|].
  cbn [read_payload_running read_payload]. rewrite andb_true_r.
  destruct (0 <? rem); [|reflexivity].
  destruct (payload_body p rem acc); [apply IH | reflexivity | reflexivity].
Qed.

(** The invariant of the payload loop with its [self.running] test: the
    loop ends with [len(jpeg_data) + remaining] unchanged, [remaining >= 0],
    and on [remaining = 0], on an empty read, or on a guard that read
    [self.running] false. *)
Lemma read_payload_running_inv (fuel : nat) (running : nat -> bool) (p p' : port)
    (rem rem' L : Z) (acc acc' : list Byte.byte) :
  (Z.to_nat rem < fuel)%nat -> Z.of_nat (length acc) + rem = L -> 0 <= rem ->
  read_payload_running fuel running p rem acc = Some (acc', p', rem') ->
  Z.of_nat (length acc') + rem' = L /\ 0 <= rem' /\
  (rem' = 0 \/ (exists q, payload_body q rem' acc' = BodyBreak p') \/
   exists k, (k < fuel)%nat /\ running k = false).
Proof.
  revert running p rem acc. induction fuel as [|f IH]; intros running p rem acc Hf HL Hr; [lia|].
  cbn [read_payload_running].
  destruct (0 <? rem) eqn:Hlt; cbn [andb].
  - apply Z.ltb_lt in Hlt.
    destruct (running O) eqn:Er.
    + destruct (payload_body p rem acc) as [p1 r1 a1|p1|] eqn:Eb.
      * destruct (payload_body_inv p p1 rem r1 L acc a1 HL Hlt Eb) as (HL1 & Hr1 & _ & _).
        intros E.
        destruct (IH (fun k => running (S k)) p1 r1 a1 ltac:(lia) HL1 ltac:(lia) E)
          as (H1 & H2 & [H3 | [H3 | [k [Hk Hk']]]]).
        -- split; [exact H1 | split; [exact H2 | left; exact H3]].
        -- split; [exact H1 | split; [exact H2 | right; left; exact H3]].
        -- split; [exact H1 | split; [exact H2 | right; right]].
           exists (S k). split; [lia | exact Hk'].
      * intros H; injection H as <- <- <-.
        split; [lia | split; [lia | right; left; exists p; exact Eb]].
      * discriminate.
    + intros H; injection H as <- <- <-.
      split; [lia | split; [lia | right; right; exists O; split; [lia | exact Er]]].
  - apply Z.ltb_ge in Hlt. intros H; injection H as <- <- <-.
    split; [lia | split; [lia | left; lia]].
Qed.

(** * Claims *)

(** C1: for every payload [P] with [len(P) < 2^32] (the largest length the
    4-byte header carries), the bytes the sender writes for [P] are decoded
    by the receiver back into exactly [P]. *)
Theorem envelope_roundtrip (P : list Byte.byte) :
  Z.of_nat (length P) < 2 ^ 32 ->
  match encode_envelope P with
  | Some E => decode_envelope E = Some P
  | None => False
  end.
Proof.
  intros HP.
  destruct (recv_envelope P [] [] [] HP) as [E [HE [log' Hr]]].
  rewrite HE. unfold decode_envelope. rewrite app_nil_r in Hr. rewrite Hr. reflexivity.
Qed.

Lemma envelope_roundtrip_witness :
  Z.of_nat (length [Byte.x01; Byte.x02]) < 2 ^ 32 /\
  match encode_envelope [Byte.x01; Byte.x02] with
  | Some E => decode_envelope E = Some [Byte.x01; Byte.x02]
  | None => False
  end.
Proof.
  split; [cbn; lia | apply envelope_roundtrip; cbn; lia].
Defined.

(** C3 (counterexample): the header [FF FF FF FF] declares 4294967295 bytes;
    the receiver raises no error and asks the port for 4096 payload bytes. *)
Lemma oversized_length_counterexample :
  rx_iter (fun d : list Byte.byte => Some d)
    (mk_rx (mk_port [Byte.xff; Byte.xff; Byte.xff; Byte.xff] [] []) (mk_fps 0 0 0) []) =
    ([], Some (mk_rx (mk_port [] [] [4; 4096]) (mk_fps 0 0 0) [])).
Proof.
  rewrite rx_iter_header_stall by (cbn; lia). reflexivity.
Qed.

(** C3 (amended): the receiver has no maximum payload length.  For every
    4-byte header declaring [L > 0], up to 2^32 - 1, it goes on to read the
    payload with a request of [min(L, 4096)] bytes and emits no error; a
    payload that does not come is dropped silently. *)
Theorem no_length_bound (Image : Type) (decode : list Byte.byte -> option Image)
    (hdr : list Byte.byte) (log : list Z) (fs : fps_state) (clk : list Q) :
  length hdr = 4%nat -> 0 < unpack_u32_be hdr ->
  rx_iter decode (mk_rx (mk_port hdr [] log) fs clk) =
    ([], Some (mk_rx (mk_port [] [] (log ++ [4; Z.min (unpack_u32_be hdr) 4096])) fs clk)).
Proof. apply rx_iter_header_stall. Qed.

Lemma no_length_bound_witness :
  length [Byte.xff; Byte.xff; Byte.xff; Byte.xff] = 4%nat /\
  0 < unpack_u32_be [Byte.xff; Byte.xff; Byte.xff; Byte.xff] /\
  rx_iter (fun d : list Byte.byte => Some d)
    (mk_rx (mk_port [Byte.xff; Byte.xff; Byte.xff; Byte.xff] [] []) (mk_fps 0 0 0) []) =
    ([], Some (mk_rx (mk_port [] [] ([] ++ [4; Z.min (unpack_u32_be [Byte.xff; Byte.xff; Byte.xff; Byte.xff]) 4096]))
                 (mk_fps 0 0 0) [])).
Proof.
  split; [reflexivity | split; [cbn; lia |]].
  apply no_length_bound; [reflexivity | cbn; lia].
Defined.

(** C7: the pacer sleeps [T - d] when the cycle took [d < T] and [0] when
    [d >= T]: [sleep_time = max(0, T - d)]. *)
Theorem sleep_time_pacing (T d : Q) :
  ((d < T)%Q -> (sleep_time T d == T - d)%Q) /\ ((T <= d)%Q -> (sleep_time T d == 0)%Q).
Proof.
  unfold sleep_time, py_max.
  destruct (Qlt_le_dec 0 (T - d)) as [H|H]; split; intros Hd; lra.
Qed.

Lemma sleep_time_pacing_witness :
  (sleep_time FRAME_INTERVAL (1 # 30) == FRAME_INTERVAL - (1 # 30))%Q /\
  (sleep_time FRAME_INTERVAL (1 # 10) == 0)%Q.
Proof.
  split.
  - apply (proj1 (sleep_time_pacing FRAME_INTERVAL (1 # 30))). unfold FRAME_INTERVAL. lra.
  - apply (proj2 (sleep_time_pacing FRAME_INTERVAL (1 # 10))). unfold FRAME_INTERVAL. lra.
Defined.

(** C8: sending a payload computes its length, writes the 4-byte big-endian
    length, writes the whole payload and flushes, in this order and nothing
    else; only a payload of 2^32 bytes or more (which [struct.pack] rejects)
    fails, before anything is written. *)
Theorem send_frame_steps (jpeg_bytes : list Byte.byte) :
  match compress_and_send_frame jpeg_bytes with
  | Some (ops, data_size) =>
      data_size = Z.of_nat (length jpeg_bytes) /\
      exists size_bytes, pack_u32_be data_size = Some size_bytes /\
        length size_bytes = 4%nat /\ unpack_u32_be size_bytes = data_size /\
        ops = [WriteOp size_bytes; WriteOp jpeg_bytes; FlushOp]
  | None => 2 ^ 32 <= Z.of_nat (length jpeg_bytes)
  end.
Proof.
  unfold compress_and_send_frame.
  destruct (Z_lt_le_dec (Z.of_nat (length jpeg_bytes)) (2 ^ 32)) as [H|H].
  - destruct (pack_u32_be_spec (Z.of_nat (length jpeg_bytes))) as [hdr [Hp [Hl Hu]]]; [lia|].
    rewrite Hp. split; [reflexivity|]. exists hdr. repeat split; assumption.
  - unfold pack_u32_be.
    replace ((0 <=? Z.of_nat (length jpeg_bytes)) && (Z.of_nat (length jpeg_bytes) <? 2 ^ 32))
      with false by (symmetry; apply andb_false_iff; right; apply Z.ltb_ge; lia).
    exact H.
Qed.

(** C2 (code bug): the envelope [00 00 00 01 2A] arrives as three header
    bytes, a stall of one read timeout, then the rest.  No signal is
    emitted, but the three header bytes are dropped by [continue] (the port
    is left holding nothing of them) and the frame is never produced. *)
Theorem partial_header_dropped (Image : Type) (decode : list Byte.byte -> option Image)
    (fs : fps_state) (clk : list Q) :
  rx_iter decode
    (mk_rx (port_of [Deliver [Byte.x00; Byte.x00; Byte.x00]; Deliver [Byte.x01; Byte.x2a]]) fs clk) =
    ([], Some (mk_rx (mk_port [] [Deliver [Byte.x01; Byte.x2a]] [4]) fs clk)) /\
  rx_run decode 10
    (mk_rx (port_of [Deliver [Byte.x00; Byte.x00; Byte.x00]; Deliver [Byte.x01; Byte.x2a]]) fs clk) = [].
Proof. split; vm_compute; reflexivity. Qed.

(** C4 (code bug): the envelope of the payload [2A], delivered whole, gives
    the frame; delivered one byte per read, every short header read is
    dropped and no frame comes out. *)
Theorem chunked_envelope_lost :
  encode_envelope [Byte.x2a] = Some [Byte.x00; Byte.x00; Byte.x00; Byte.x01; Byte.x2a] /\
  receiver_run (fun d : list Byte.byte => Some d) 10
    (port_of [Deliver [Byte.x00; Byte.x00; Byte.x00; Byte.x01; Byte.x2a]]) [0; 1]%Q =
    [OFrame [Byte.x2a]; OFps 1%Q] /\
  receiver_run (fun d : list Byte.byte => Some d) 10
    (port_of (map (fun b => Deliver [b]) [Byte.x00; Byte.x00; Byte.x00; Byte.x01; Byte.x2a]))
    [0; 1]%Q = [].
Proof. repeat split; vm_compute; reflexivity. Qed.

(** C5 (counterexample): header [00 00 00 02] and one payload byte, then the
    line stays silent: the payload loop stops, nothing is decoded, and no
    incomplete-payload report is emitted. *)
Lemma incomplete_payload_counterexample :
  rx_iter (fun d : list Byte.byte => Some d)
    (mk_rx (port_of [Deliver [Byte.x00; Byte.x00; Byte.x00; Byte.x02; Byte.x2a]]) (mk_fps 0 0 0) [0%Q]) =
    ([], Some (mk_rx (mk_port [] [] [4; 2; 1]) (mk_fps 0 0 0) [0%Q])).
Proof. vm_compute. reflexivity. Qed.

(** C5 (amended): when fewer than [L] payload bytes come before the line
    stalls, the receiver stops accumulating and silently drops them: no
    frame, no report, the loop goes on; when the port fails first, the only
    signal is the fatal serial error.  In neither case are the partial
    bytes decoded. *)
Theorem incomplete_payload_dropped (Image : Type) (decode : list Byte.byte -> option Image)
    (hdr P : list Byte.byte) (evs : list event) (log : list Z) (fs : fps_state) (clk : list Q) :
  length hdr = 4%nat -> Z.of_nat (length P) < unpack_u32_be hdr ->
  (exists log',
     rx_iter decode (mk_rx (mk_port (hdr ++ P) [] log) fs clk) =
       ([], Some (mk_rx (mk_port [] [] log') fs clk))) /\
  rx_iter decode (mk_rx (mk_port (hdr ++ P) (Fail :: evs) log) fs clk) =
    ([OError SerialError], None).
Proof.
  intros Hl HP. unfold rx_iter, recv_frame_bytes. cbn [rx_port].
  rewrite !serial_read_buffered by (rewrite length_app; cbn; lia).
  destruct (firstn_skipn_hdr hdr P Hl) as [-> ->].
  rewrite Hl. cbn [Nat.ltb Nat.leb].
  split.
  - destruct (read_payload_stall (S (Z.to_nat (unpack_u32_be hdr))) P (log ++ [4])
                (unpack_u32_be hdr) [] HP ltac:(lia)) as [log' Hr].
    rewrite Hr. cbn [app].
    replace (Z.of_nat (length P) =? unpack_u32_be hdr) with false
      by (symmetry; apply Z.eqb_neq; lia).
    exists log'. reflexivity.
  - rewrite read_payload_fail by lia. reflexivity.
Qed.

Lemma incomplete_payload_dropped_witness :
  length [Byte.x00; Byte.x00; Byte.x00; Byte.x02] = 4%nat /\
  Z.of_nat (length [Byte.x2a]) < unpack_u32_be [Byte.x00; Byte.x00; Byte.x00; Byte.x02] /\
  rx_iter (fun d : list Byte.byte => Some d)
    (mk_rx (mk_port ([Byte.x00; Byte.x00; Byte.x00; Byte.x02] ++ [Byte.x2a]) (Fail :: []) [])
       (mk_fps 0 0 0) []) = ([OError SerialError], None).
Proof.
  split; [reflexivity | split; [cbn; lia |]].
  apply (incomplete_payload_dropped (list Byte.byte) (fun d => Some d)
           [Byte.x00; Byte.x00; Byte.x00; Byte.x02] [Byte.x2a] [] [] (mk_fps 0 0 0) []);
    [reflexivity | cbn; lia].
Defined.

(** C6: a well-framed envelope whose payload the decoder rejects, followed
    by a good envelope: the first iteration emits exactly one processing
    error and the loop goes on; having consumed exactly the bad envelope,
    the next iteration emits the good frame and leaves the port just after
    it. *)
Theorem decode_failure_recovery (Image : Type) (decode : list Byte.byte -> option Image)
    (bad good Eb Eg rest : list Byte.byte) (img : Image) (evs : list event) (log : list Z)
    (fs : fps_state) (clk : list Q) :
  encode_envelope bad = Some Eb -> encode_envelope good = Some Eg ->
  decode bad = None -> decode good = Some img ->
  exists s1 p2,
    rx_iter decode (mk_rx (mk_port (Eb ++ Eg ++ rest) evs log) fs clk) =
      ([OError ProcessingError], Some s1) /\
    rx_iter decode s1 =
      (OFrame img :: fps_outs (snd (fps_tick fs (fst (clock_now clk)))),
       Some (mk_rx p2 (fst (fps_tick fs (fst (clock_now clk)))) (snd (clock_now clk)))) /\
    port_buf p2 = rest /\ port_pending p2 = evs.
Proof.
  intros Hb Hg Db Dg.
  destruct (recv_envelope bad (Eg ++ rest) evs log (encode_envelope_len _ _ Hb))
    as [Eb' [Hb' [log1 Hr1]]].
  rewrite Hb in Hb'. injection Hb' as <-.
  destruct (recv_envelope good rest evs log1 (encode_envelope_len _ _ Hg))
    as [Eg' [Hg' [log2 Hr2]]].
  rewrite Hg in Hg'. injection Hg' as <-.
  exists (mk_rx (mk_port (Eg ++ rest) evs log1) fs clk), (mk_port rest evs log2).
  unfold rx_iter at 1. cbn [rx_port]. rewrite Hr1, Db. split; [reflexivity|].
  unfold rx_iter. cbn [rx_port rx_fps rx_clock]. rewrite Hr2, Dg.
  destruct (clock_now clk) as [t clk']. cbn [fst snd].
  destruct (fps_tick fs t) as [fs' r].
  cbn [fst snd]. split; [reflexivity | split; reflexivity].
Qed.

Lemma decode_failure_recovery_witness :
  encode_envelope [Byte.x00] = Some [Byte.x00; Byte.x00; Byte.x00; Byte.x01; Byte.x00] /\
  encode_envelope [Byte.x01] = Some [Byte.x00; Byte.x00; Byte.x00; Byte.x01; Byte.x01] /\
  exists s1 p2,
    rx_iter (fun d => if list_eq_dec Byte.byte_eq_dec d [Byte.x01] then Some tt else None)
      (mk_rx (mk_port ([Byte.x00; Byte.x00; Byte.x00; Byte.x01; Byte.x00] ++
                       [Byte.x00; Byte.x00; Byte.x00; Byte.x01; Byte.x01] ++ []) [] [])
         (mk_fps 0 0 0) [1%Q]) =
      ([OError ProcessingError], Some s1) /\
    rx_iter (fun d => if list_eq_dec Byte.byte_eq_dec d [Byte.x01] then Some tt else None) s1 =
      (OFrame tt :: fps_outs (snd (fps_tick (mk_fps 0 0 0) (fst (clock_now [1%Q])))),
       Some (mk_rx p2 (fst (fps_tick (mk_fps 0 0 0) (fst (clock_now [1%Q]))))
               (snd (clock_now [1%Q])))) /\
    port_buf p2 = [] /\ port_pending p2 = [].
Proof.
  split; [reflexivity | split; [reflexivity |]].
  apply decode_failure_recovery with (bad := [Byte.x00]) (good := [Byte.x01]);
    reflexivity.
Defined.

(** C9 (counterexample): frames decoded at times 1, 3/2 and 2 after a start
    at 0.  The first emission leaves [frames_received] at 1, not 0, and the
    second emits 3/2, that is 3 frames over the 2 seconds since start,
    although only 2 frames came in the second since the previous emission. *)
Lemma fps_count_not_reset :
  fps_tick (mk_fps 0 0 0) 1 = (mk_fps 1 0 1, FpsEmit 1) /\
  fps_tick (mk_fps 1 0 1) (3 # 2) = (mk_fps 2 0 1, NoFps) /\
  fps_tick (mk_fps 2 0 1) 2 = (mk_fps 3 0 2, FpsEmit (3 # 2)) /\
  frames_received (fst (fps_tick (mk_fps 0 0 0) 1)) <> 0.
Proof. repeat split; [vm_compute; reflexivity .. | cbn; lia]. Qed.

(** C9 (amended): a rate sample is emitted only when at least one second
    has passed since the previous one (or since start), so at most once per
    second; its value is the cumulative average [frames_received /
    (t - start_time)] over all frames since start; [frames_received] is
    never reset and [last_fps_update] moves only on an emission. *)
Theorem fps_emission_rate :
  (forall (st : fps_state) (t : Q),
     match fps_tick st t with
     | (st', FpsEmit v) =>
         (1 <= t - last_fps_update st)%Q /\ last_fps_update st' = t /\
         frames_received st' = frames_received st + 1 /\ start_time st' = start_time st /\
         v = (inject_Z (frames_received st') / (t - start_time st))%Q
     | (st', _) =>
         last_fps_update st' = last_fps_update st /\
         frames_received st' = frames_received st + 1 /\ start_time st' = start_time st
     end) /\
  (forall (st : fps_state) (ts : list Q),
     spaced (last_fps_update st) (fps_emit_times st ts)).
Proof.
  split; [exact fps_tick_spec|].
  intros st ts. revert st. induction ts as [|t ts IH]; intros st; [exact I|].
  cbn [fps_emit_times]. pose proof (fps_tick_spec st t) as Hs.
  destruct (fps_tick st t) as [st' [|v|]].
  - destruct Hs as [<- _]. apply IH.
  - destruct Hs as (H1 & H2 & _). split; [exact H1|]. rewrite <- H2. apply IH.
  - destruct Hs as [<- _]. apply IH.
Qed.

(** C10 (counterexample): a stop request between two reads ends the payload
    loop with bytes still missing and no empty read.  Header declaring 2;
    the first read returns 1 byte; [stop()] then clears [self.running]: the
    loop leaves with [remaining = 1] after a non-empty read. *)
Lemma payload_loop_stop_counterexample :
  payload_body (mk_port [Byte.x01] [] []) 2 [] = BodyCont (mk_port [] [] [2]) 1 [Byte.x01] /\
  read_payload_running (S (Z.to_nat 2)) (fun k => Nat.eqb k 0) (mk_port [Byte.x01] [] []) 2 [] =
    Some ([Byte.x01], mk_port [] [] [2], 1).
Proof. split; reflexivity. Qed.

(** C10 (amended): in the payload loop each read asks for [min(remaining,
    4096)] bytes and gets at most that many, so every iteration keeps
    [len(jpeg_data) + remaining = L] with [remaining >= 0].  The loop, run
    from [remaining = L], ends with this invariant and with [remaining = 0],
    a last read that returned nothing, or a guard that found
    [self.running] cleared by [stop()]; without a stop request only the
    first two remain. *)
Theorem payload_loop_invariant :
  (forall (p p' : port) (rem rem' L : Z) (acc acc' : list Byte.byte),
     Z.of_nat (length acc) + rem = L -> 0 < rem ->
     payload_body p rem acc = BodyCont p' rem' acc' ->
     Z.of_nat (length acc') + rem' = L /\ 0 <= rem' /\
     port_log p' = port_log p ++ [Z.min rem 4096] /\
     (length acc' - length acc <= Z.to_nat (Z.min rem 4096))%nat) /\
  (forall (running : nat -> bool) (p p' : port) (L rem' : Z) (acc' : list Byte.byte),
     0 <= L ->
     read_payload_running (S (Z.to_nat L)) running p L [] = Some (acc', p', rem') ->
     Z.of_nat (length acc') + rem' = L /\ 0 <= rem' /\
     (rem' = 0 \/ (exists q, payload_body q rem' acc' = BodyBreak p') \/
      exists k, (k <= Z.to_nat L)%nat /\ running k = false)) /\
  (forall (p p' : port) (L rem' : Z) (acc' : list Byte.byte),
     0 <= L ->
     read_payload (S (Z.to_nat L)) p L [] = Some (acc', p', rem') ->
     Z.of_nat (length acc') + rem' = L /\ 0 <= rem' /\
     (rem' = 0 \/ exists q, payload_body q rem' acc' = BodyBreak p')).
Proof.
  split; [|split].
  - intros p p' rem rem' L acc acc' HL Hr Hb.
    destruct (payload_body_inv p p' rem rem' L acc acc' HL Hr Hb) as (H1 & H2 & H3 & H4).
    repeat split; try lia; assumption.
  - intros running p p' L rem' acc' HL Hr.
    destruct (read_payload_running_inv (S (Z.to_nat L)) running p p' L rem' L [] acc')
      as (H1 & H2 & [H3 | [H3 | [k [Hk Hk']]]]); [lia | reflexivity | lia | exact Hr | | |].
    + split; [exact H1 | split; [exact H2 | left; exact H3]].
    + split; [exact H1 | split; [exact H2 | right; left; exact H3]].
    + split; [exact H1 | split; [exact H2 | right; right; exists k; split; [lia | exact Hk']]].
  - intros p p' L rem' acc' HL Hr.
    apply (read_payload_inv (S (Z.to_nat L)) p p' L rem' L [] acc'); [lia | reflexivity | lia | exact Hr].
Qed.

Lemma payload_loop_invariant_witness :
  0 <= 2 /\
  read_payload_running (S (Z.to_nat 2)) (fun k => Nat.eqb k 0) (mk_port [Byte.x01] [] []) 2 [] =
    Some ([Byte.x01], mk_port [] [] [2], 1) /\
  (Z.of_nat (length [Byte.x01]) + 1 = 2 /\ 0 <= 1 /\
   (1 = 0 \/ (exists q, payload_body q 1 [Byte.x01] = BodyBreak (mk_port [] [] [2])) \/
    exists k, (k <= Z.to_nat 2)%nat /\ Nat.eqb k 0 = false)).
Proof.
  split; [lia | split; [reflexivity |]].
  apply (proj1 (proj2 payload_loop_invariant) (fun k => Nat.eqb k 0) (mk_port [Byte.x01] [] [])
           (mk_port [] [] [2]) 2 1 [Byte.x01]); [lia | reflexivity].
Defined.

(** * Further properties of the code *)

Lemma serial_read_stream (p p' : port) (n : Z) (c : list Byte.byte) :
  serial_read p n = Some (c, p') -> stream_of p = c ++ stream_of p'.
Proof.
  unfold serial_read, stream_of.
  destruct (Z.to_nat n <=? length (port_buf p))%nat.
  - intros E; injection E as <- <-. cbn [port_buf port_pending].
    rewrite app_assoc, firstn_skipn. reflexivity.
  - destruct (port_pending p) as [|[d|] rest].
    + intros E; injection E as <- <-. cbn [port_buf port_pending events_bytes].
      rewrite app_assoc, firstn_skipn. reflexivity.
    + intros E; injection E as <- <-. cbn [port_buf port_pending events_bytes].
      rewrite app_assoc, app_assoc, firstn_skipn. reflexivity.
    + discriminate.
Qed.

Lemma payload_body_stream (p : port) (rem : Z) (acc : list Byte.byte) :
  match payload_body p rem acc with
  | BodyCont p' _ acc' => exists c, acc' = acc ++ c /\ stream_of p = c ++ stream_of p'
  | BodyBreak p' => stream_of p = stream_of p'
  | BodyRaise => True
  end.
Proof.
  unfold payload_body.
  destruct (serial_read p (Z.min rem 4096)) as [[c p1]|] eqn:E; [|exact I].
  apply serial_read_stream in E.
  destruct c as [|c0 cs]; [exact E|]. exists (c0 :: cs). split; [reflexivity | exact E].
Qed.

Lemma payload_body_log (p : port) (rem : Z) (acc : list Byte.byte) :
  match payload_body p rem acc with
  | BodyCont p' _ _ | BodyBreak p' => port_log p' = port_log p ++ [Z.min rem 4096]
  | BodyRaise => True
  end.
Proof.
  unfold payload_body.
  destruct (serial_read p (Z.min rem 4096)) as [[c p1]|] eqn:E; [|exact I].
  apply serial_read_short_len in E as [_ E].
  destruct c; exact E.
Qed.

Lemma read_payload_stream (fuel : nat) (p p' : port) (rem rem' : Z) (acc acc' : list Byte.byte) :
  read_payload fuel p rem acc = Some (acc', p', rem') ->
  exists c, acc' = acc ++ c /\ stream_of p = c ++ stream_of p'.
Proof.
  revert p rem acc. induction fuel as [|f IH]; intros p rem acc.
  - cbn. intros E; injection E as <- <- <-. exists []. rewrite app_nil_r. split; reflexivity.
  - cbn [read_payload]. destruct (0 <? rem).
    + pose proof (payload_body_stream p rem acc) as Hs.
      destruct (payload_body p rem acc) as [p1 r1 a1|p1|]; [| |discriminate].
      * intros E. destruct Hs as [c1 [-> Hs]].
        destruct (IH p1 r1 (acc ++ c1) E) as [c2 [-> H2]].
        exists (c1 ++ c2). rewrite app_assoc, Hs, H2, app_assoc. split; reflexivity.
      * intros E; injection E as <- <- <-. exists []. rewrite app_nil_r. split; [reflexivity | exact Hs].
    + intros E; injection E as <- <- <-. exists []. rewrite app_nil_r. split; reflexivity.
Qed.

Lemma read_payload_log (fuel : nat) (p p' : port) (rem rem' : Z) (acc acc' : list Byte.byte) :
  read_payload fuel p rem acc = Some (acc', p', rem') ->
  exists l, port_log p' = port_log p ++ l /\ Forall (fun n => 1 <= n <= 4096) l.
Proof.
  revert p rem acc. induction fuel as [|f IH]; intros p rem acc.
  - cbn. intros E; injection E as <- <- <-. exists []. rewrite app_nil_r. split; [reflexivity | constructor].
  - cbn [read_payload]. destruct (0 <? rem) eqn:Hr.
    + apply Z.ltb_lt in Hr.
      pose proof (payload_body_log p rem acc) as Hl.
      destruct (payload_body p rem acc) as [p1 r1 a1|p1|]; [| |discriminate].
      * intros E. destruct (IH p1 r1 a1 E) as [l [Hl' Hf]].
        exists (Z.min rem 4096 :: l). rewrite Hl', Hl, <- app_assoc.
        split; [reflexivity | constructor; [lia | exact Hf]].
      * intros E; injection E as <- <- <-. exists [Z.min rem 4096].
        split; [exact Hl | constructor; [lia | constructor]].
    + intros E; injection E as <- <- <-. exists []. rewrite app_nil_r. split; [reflexivity | constructor].
Qed.

Lemma rx_iter_ends (Image : Type) (decode : list Byte.byte -> option Image) (s : rx_state) :
  match rx_iter decode s with
  | (o, None) => o = [OError SerialError]
  | (o, Some _) => ~ In (OError SerialError) o
  end.
Proof.
  unfold rx_iter.
  destruct (recv_frame_bytes (rx_port s)) as [[[d|] p]|]; [| intros [] | reflexivity].
  destruct (decode d) as [img|].
  - destruct (clock_now (rx_clock s)) as [t clk]. destruct (fps_tick (rx_fps s) t) as [fs [|q|]];
      cbn; intuition discriminate.
  - cbn. intuition discriminate.
Qed.

(** The bytes the receiver hands to the decoder are exactly the next
    [4 + L] bytes of the incoming stream, a 4-byte header declaring [L]
    followed by the [L] payload bytes; an iteration that hands nothing over
    only drops a prefix of the stream.  No byte is reordered or re-read. *)
Theorem recv_frame_consumes_stream (p p' : port) (d : list Byte.byte) :
  (recv_frame_bytes p = Some (Some d, p') ->
   exists hdr, length hdr = 4%nat /\ unpack_u32_be hdr = Z.of_nat (length d) /\
     stream_of p = hdr ++ d ++ stream_of p') /\
  (recv_frame_bytes p = Some (None, p') ->
   exists dropped, stream_of p = dropped ++ stream_of p').
Proof.
  unfold recv_frame_bytes.
  destruct (serial_read p 4) as [[hdr p1]|] eqn:E1; [|split; discriminate].
  pose proof (serial_read_short_len _ _ _ _ E1) as [Hlen _].
  apply serial_read_stream in E1.
  destruct (length hdr <? 4)%nat eqn:Eh.
  - split; [discriminate|]. intros E; injection E as <-. exists hdr. exact E1.
  - apply Nat.ltb_ge in Eh.
    destruct (read_payload (S (Z.to_nat (unpack_u32_be hdr))) p1 (unpack_u32_be hdr) [])
      as [[[acc p2] r]|] eqn:E2; [|split; discriminate].
    apply read_payload_stream in E2 as [c [Hc Hs]]. cbn in Hc. subst acc.
    destruct (Z.of_nat (length c) =? unpack_u32_be hdr) eqn:Eq.
    + split; [|discriminate]. intros E; injection E as <- <-.
      apply Z.eqb_eq in Eq. exists hdr.
      split; [change (Z.to_nat 4) with 4%nat in Hlen; lia|].
      split; [symmetry; exact Eq|]. rewrite E1, Hs. reflexivity.
    + split; [discriminate|]. intros E; injection E as <-.
      exists (hdr ++ c). rewrite E1, Hs, app_assoc. reflexivity.
Qed.

Lemma recv_frame_consumes_stream_witness :
  recv_frame_bytes (mk_port [Byte.x00; Byte.x00; Byte.x00; Byte.x01; Byte.x2a; Byte.x07] [] []) =
    Some (Some [Byte.x2a], mk_port [Byte.x07] [] [4; 1]) /\
  exists hdr, length hdr = 4%nat /\ unpack_u32_be hdr = Z.of_nat (length [Byte.x2a]) /\
    stream_of (mk_port [Byte.x00; Byte.x00; Byte.x00; Byte.x01; Byte.x2a; Byte.x07] [] []) =
    hdr ++ [Byte.x2a] ++ stream_of (mk_port [Byte.x07] [] [4; 1]).
Proof.
  split; [reflexivity|].
  apply (proj1 (recv_frame_consumes_stream
                  (mk_port [Byte.x00; Byte.x00; Byte.x00; Byte.x01; Byte.x2a; Byte.x07] [] [])
                  (mk_port [Byte.x07] [] [4; 1]) [Byte.x2a])).
  reflexivity.
Defined.


Lemma unpack_u32_be_nonneg (b : list Byte.byte) : 0 <= unpack_u32_be b.
Proof.
  unfold unpack_u32_be, Z_of_byte.
  destruct b as [|b0 [|b1 [|b2 [|b3 [|]]]]]; try lia.
Qed.



(** An iteration of the receiver ends the loop exactly when it signals a
    serial error, and then it signals nothing else; an iteration that
    signals a decode error goes on.  Hence in a run a serial error is
    signalled at most once, and only as the last signal. *)
Theorem rx_run_serial_error_last (Image : Type) (decode : list Byte.byte -> option Image) :
  (forall (s : rx_state) (o : list (out Image)) (s' : option rx_state),
     rx_iter decode s = (o, s') -> (s' = None <-> o = [OError SerialError])) /\
  (forall (fuel : nat) (s : rx_state),
     ~ In (OError SerialError) (rx_run decode fuel s) \/
     exists o1, rx_run decode fuel s = o1 ++ [OError SerialError] /\ ~ In (OError SerialError) o1).
Proof.
  split.
  - intros s o s' E. pose proof (rx_iter_ends Image decode s) as He. rewrite E in He.
    destruct s' as [s''|].
    + split; [discriminate|]. intros ->. exfalso. apply He. left. reflexivity.
    + split; [intros _; exact He | reflexivity].
  - intros fuel. induction fuel as [|f IH]; intros s; [left; intros []|].
    cbn [rx_run]. pose proof (rx_iter_ends Image decode s) as He.
    destruct (rx_iter decode s) as [o [s'|]].
    + destruct (IH s') as [H|[o1 [H1 H2]]].
      * left. intros Hin. apply in_app_or in Hin as [Hin|Hin]; [exact (He Hin) | exact (H Hin)].
      * right. exists (o ++ o1). rewrite H1, app_assoc. split; [reflexivity|].
        intros Hin. apply in_app_or in Hin as [Hin|Hin]; [exact (He Hin) | exact (H2 Hin)].
    + right. exists []. subst o. split; [reflexivity | intros []].
Qed.

Lemma rx_run_serial_error_last_witness :
  rx_iter (fun _ : list Byte.byte => @None unit)
    (mk_rx (mk_port [Byte.x00; Byte.x00; Byte.x00; Byte.x01; Byte.x2a] [] []) (mk_fps 0 0 0) [])
    = ([OError ProcessingError], Some (mk_rx (mk_port [] [] [4; 1]) (mk_fps 0 0 0) [])) /\
  (Some (mk_rx (mk_port [] [] [4; 1]) (mk_fps 0 0 0) []) = None <->
   [@OError unit ProcessingError] = [OError SerialError]).
Proof.
  split; [vm_compute; reflexivity|].
  apply (proj1 (rx_run_serial_error_last unit (fun _ => None))
           (mk_rx (mk_port [Byte.x00; Byte.x00; Byte.x00; Byte.x01; Byte.x2a] [] []) (mk_fps 0 0 0) [])).
  vm_compute. reflexivity.
Defined.

Lemma compress_and_send_frame_ok (j : list Byte.byte) :
  match compress_and_send_frame j with
  | Some (ops, _) => Z.of_nat (length j) < 2 ^ 32 /\ ops = sent_ops j
  | None => 2 ^ 32 <= Z.of_nat (length j) /\ sent_ops j = []
  end.
Proof.
  unfold sent_ops, compress_and_send_frame, pack_u32_be.
  destruct ((0 <=? Z.of_nat (length j)) && (Z.of_nat (length j) <? 2 ^ 32)) eqn:E.
  - apply andb_true_iff in E as [_ E]. apply Z.ltb_lt in E. split; [exact E | reflexivity].
  - apply andb_false_iff in E as [E|E]; [apply Z.leb_gt in E; lia|].
    apply Z.ltb_ge in E. split; [exact E | reflexivity].
Qed.

Lemma pace_spec (st : sender) (frame_start : Q) :
  let st' := pace st frame_start in
  frames_sent st' = frames_sent st /\ sender_start_time st' = sender_start_time st /\
  serial_ops st' = serial_ops st /\ status_reports st' = status_reports st /\
  exists c, cycles st' = cycles st ++ [c] /\
    (0 <= snd c)%Q /\ (FRAME_INTERVAL <= fst c + snd c)%Q /\
    ((FRAME_INTERVAL <= fst c)%Q -> (snd c == 0)%Q).
Proof.
  unfold pace. destruct (clock_now (sender_clock st)) as [now clk]. cbn.
  repeat split.
  eexists; split; [reflexivity|]. cbn [fst snd].
  unfold sleep_time, py_max.
  destruct (Qlt_le_dec 0 (FRAME_INTERVAL - (now - frame_start))) as [H|H];
    destruct (Qlt_le_dec 0 _) as [H'|H']; repeat split; lra.
Qed.

(** What one iteration of the sender loop does to the counters: either the
    payload is too long for the header and nothing happens, or its
    envelope is written, the count goes up by one, and the iteration is
    paced, reported at multiples of 30, or ends the loop on the division. *)
Lemma sender_iter_spec (st : sender) (j : list Byte.byte) :
  let '(st', ok) := sender_iter st j in
  sender_start_time st' = sender_start_time st /\
  ((ok = false /\ 2 ^ 32 <= Z.of_nat (length j) /\ frames_sent st' = frames_sent st /\
    serial_ops st' = serial_ops st /\ status_reports st' = status_reports st /\
    cycles st' = cycles st) \/
   (Z.of_nat (length j) < 2 ^ 32 /\ frames_sent st' = frames_sent st + 1 /\
    serial_ops st' = serial_ops st ++ sent_ops j /\
    ((ok = true /\
      map fst (status_reports st') = map fst (status_reports st) ++
        (if (frames_sent st + 1) mod 30 =? 0 then [frames_sent st + 1] else []) /\
      exists c, cycles st' = cycles st ++ [c] /\
        (0 <= snd c)%Q /\ (FRAME_INTERVAL <= fst c + snd c)%Q /\
        ((FRAME_INTERVAL <= fst c)%Q -> (snd c == 0)%Q)) \/
     (ok = false /\ (frames_sent st + 1) mod 30 = 0 /\
      status_reports st' = status_reports st /\ cycles st' = cycles st)))).
Proof.
  unfold sender_iter.
  destruct (clock_now (sender_clock st)) as [frame_start clk1].
  pose proof (compress_and_send_frame_ok j) as Hc.
  destruct (compress_and_send_frame j) as [[ops sz]|].
  - destruct Hc as [Hlen ->].
    destruct (clock_now clk1) as [now clk2].
    destruct ((frames_sent st + 1) mod 30 =? 0) eqn:Em.
    + destruct (Qeq_bool (now - sender_start_time st) 0).
      * cbn. split; [reflexivity|]. right. repeat split; [exact Hlen|].
        right. apply Z.eqb_eq in Em. repeat split; exact Em.
      * pose proof (pace_spec (mk_sender (frames_sent st + 1) (sender_start_time st) clk2
          (serial_ops st ++ sent_ops j) (status_reports st ++ [(frames_sent st + 1,
          (now - sender_start_time st)%Q)]) (cycles st)) frame_start)
          as [H1 [H2 [H3 [H4 H5]]]].
        cbn in H1, H2, H3, H4, H5 |- *. rewrite H1, H2, H3, H4.
        split; [reflexivity|]. right. split; [exact Hlen|]. split; [reflexivity|].
        split; [reflexivity|]. left. split; [reflexivity|].
        split; [rewrite map_app; reflexivity | exact H5].
    + pose proof (pace_spec (mk_sender (frames_sent st + 1) (sender_start_time st) clk2
        (serial_ops st ++ sent_ops j) (status_reports st) (cycles st)) frame_start)
        as [H1 [H2 [H3 [H4 H5]]]].
      cbn in H1, H2, H3, H4, H5 |- *. rewrite H1, H2, H3, H4.
      split; [reflexivity|]. right. split; [exact Hlen|]. split; [reflexivity|].
      split; [reflexivity|]. left. split; [reflexivity|].
      split; [rewrite app_nil_r; reflexivity | exact H5].
  - destruct Hc as [Hlen Hs]. cbn. split; [reflexivity|]. left.
    repeat split; exact Hlen.
Qed.

Lemma sender_run_prefix (st0 : sender) (frames : list (list Byte.byte)) :
  let '(st, err) := sender_run st0 frames in
  exists k, (k <= length frames)%nat /\
    frames_sent st = frames_sent st0 + Z.of_nat k /\
    serial_ops st = serial_ops st0 ++ flat_map sent_ops (firstn k frames) /\
    Forall (fun j => Z.of_nat (length j) < 2 ^ 32) (firstn k frames) /\
    (err = false -> k = length frames).
Proof.
  revert st0. induction frames as [|j rest IH]; intros st0.
  - cbn. exists 0%nat. rewrite app_nil_r. repeat split; [lia | lia | constructor].
  - cbn [sender_run]. pose proof (sender_iter_spec st0 j) as Hs.
    destruct (sender_iter st0 j) as [st' ok].
    destruct Hs as [_ [[-> [_ [Hf [Ho _]]]] | [Hlen [Hf [Ho [[-> _] | [-> _]]]]]]].
    + exists 0%nat. cbn. rewrite app_nil_r. repeat split; [lia | lia | exact Ho | constructor | discriminate].
    + specialize (IH st'). destruct (sender_run st' rest) as [st err].
      destruct IH as [k [Hk [Hf' [Ho' [Hall Herr]]]]].
      exists (S k). cbn [firstn flat_map length].
      rewrite Hf', Ho', Hf, Ho, app_assoc.
      repeat split; [lia | lia | constructor; assumption |].
      intros E. rewrite (Herr E). reflexivity.
    + exists 1%nat. cbn [firstn flat_map length]. rewrite Hf, Ho, app_nil_r.
      split; [lia|]. split; [lia|]. split; [reflexivity|].
      split; [constructor; [exact Hlen | constructor] | discriminate].
Qed.


Lemma sender_run_reports (st0 : sender) (frames : list (list Byte.byte)) (m0 : nat) :
  map fst (status_reports st0) = map (fun i => 30 * Z.of_nat (S i)) (seq 0 m0) ->
  Z.of_nat m0 = frames_sent st0 / 30 ->
  let '(st, err) := sender_run st0 frames in
  exists m, map fst (status_reports st) = map (fun i => 30 * Z.of_nat (S i)) (seq 0 m) /\
    (Z.of_nat m = frames_sent st / 30 \/ (err = true /\ Z.of_nat m + 1 = frames_sent st / 30)).
Proof.
  revert st0 m0. induction frames as [|j rest IH]; intros st0 m0 Hr Hm.
  - cbn. exists m0. split; [exact Hr | left; exact Hm].
  - cbn [sender_run]. pose proof (sender_iter_spec st0 j) as Hs.
    destruct (sender_iter st0 j) as [st' ok].
    destruct Hs as [_ [[-> [_ [Hf [_ [Hrep _]]]]] | [_ [Hf [_ [[-> [Hrep _]] | [-> [Hmod [Hrep _]]]]]]]]].
    + exists m0. rewrite Hrep, Hf. split; [exact Hr | left; exact Hm].
    + destruct ((frames_sent st0 + 1) mod 30 =? 0) eqn:Em.
      * apply Z.eqb_eq in Em.
        apply (IH st' (S m0)).
        -- rewrite Hrep, Hr, seq_S, map_app. cbn [map Nat.add].
           f_equal. f_equal.
           pose proof (Z.div_mod (frames_sent st0 + 1) 30 ltac:(lia)).
           assert ((frames_sent st0 + 1) / 30 = frames_sent st0 / 30 + 1)
             by (rewrite <- (Z.div_add (frames_sent st0) 1 30) by lia;
                 Z.div_mod_to_equations; lia).
           lia.
        -- rewrite Hf. Z.div_mod_to_equations. lia.
      * apply Z.eqb_neq in Em. apply (IH st' m0).
        -- rewrite Hrep, Hr, app_nil_r. reflexivity.
        -- rewrite Hf. Z.div_mod_to_equations. lia.
    + exists m0. rewrite Hrep, Hf. split; [exact Hr|]. right. split; [reflexivity|].
      Z.div_mod_to_equations. lia.
Qed.

(** Status messages are emitted exactly at frame counts 30, 60, 90, ...:
    after a run, the reported counts are the multiples of 30 up to
    [frames_sent], except that the last is missing when the loop ended on
    the division by a zero elapsed time. *)
Theorem sender_status_reports (clk : list Q) (frames : list (list Byte.byte)) :
  let '(st, err) := sender_run (sender_loop_start clk) frames in
  exists m, map fst (status_reports st) = map (fun i => 30 * Z.of_nat (S i)) (seq 0 m) /\
    (Z.of_nat m = frames_sent st / 30 \/ (err = true /\ Z.of_nat m + 1 = frames_sent st / 30)).
Proof.
  apply (sender_run_reports (sender_loop_start clk) frames 0).
  - unfold sender_loop_start. destruct (clock_now clk). reflexivity.
  - unfold sender_loop_start. destruct (clock_now clk). reflexivity.
Qed.

Lemma sender_run_cycles (st0 : sender) (frames : list (list Byte.byte)) :
  Forall (fun c => (0 <= snd c)%Q /\ (FRAME_INTERVAL <= fst c + snd c)%Q /\
                   ((FRAME_INTERVAL <= fst c)%Q -> (snd c == 0)%Q)) (cycles st0) ->
  let '(st, err) := sender_run st0 frames in
  Forall (fun c => (0 <= snd c)%Q /\ (FRAME_INTERVAL <= fst c + snd c)%Q /\
                   ((FRAME_INTERVAL <= fst c)%Q -> (snd c == 0)%Q)) (cycles st) /\
  (Z.of_nat (length (cycles st)) - Z.of_nat (length (cycles st0)) = frames_sent st - frames_sent st0 \/
   (err = true /\
    Z.of_nat (length (cycles st)) - Z.of_nat (length (cycles st0)) + 1 = frames_sent st - frames_sent st0)).
Proof.
  revert st0. induction frames as [|j rest IH]; intros st0 H0.
  - cbn. split; [exact H0 | left; lia].
  - cbn [sender_run]. pose proof (sender_iter_spec st0 j) as Hs.
    destruct (sender_iter st0 j) as [st' ok].
    destruct Hs as [_ [[-> [_ [Hf [_ [_ Hc]]]]] |
                       [_ [Hf [_ [[-> [_ [c [Hc Hp]]]] | [-> [_ [_ Hc]]]]]]]]].
    + rewrite Hc, Hf. split; [exact H0 | left; lia].
    + assert (H1 : Forall (fun c => (0 <= snd c)%Q /\ (FRAME_INTERVAL <= fst c + snd c)%Q /\
                   ((FRAME_INTERVAL <= fst c)%Q -> (snd c == 0)%Q)) (cycles st'))
        by (rewrite Hc; apply Forall_app; split; [exact H0 | constructor; [exact Hp | constructor]]).
      specialize (IH st' H1). destruct (sender_run st' rest) as [st err].
      destruct IH as [Hall Hlen]. split; [exact Hall|].
      rewrite Hc, length_app in Hlen. rewrite Hf in Hlen. cbn [length] in Hlen.
      destruct Hlen as [Hl|[He Hl]]; [left; lia | right; split; [exact He | lia]].
    + rewrite Hc, Hf. split; [exact H0 | right; split; [reflexivity | lia]].
Qed.

(** Pacing of the sender loop: every paced iteration sleeps a non-negative
    time, it together with the processing time fills at least
    [FRAME_INTERVAL], and an iteration that already took [FRAME_INTERVAL]
    does not sleep.  Every counted frame is paced, except the last one when
    the loop ended on the division by zero in the status message. *)
Theorem sender_pacing (clk : list Q) (frames : list (list Byte.byte)) :
  let '(st, err) := sender_run (sender_loop_start clk) frames in
  Forall (fun c => (0 <= snd c)%Q /\ (FRAME_INTERVAL <= fst c + snd c)%Q /\
                   ((FRAME_INTERVAL <= fst c)%Q -> (snd c == 0)%Q)) (cycles st) /\
  (Z.of_nat (length (cycles st)) = frames_sent st \/
   (err = true /\ Z.of_nat (length (cycles st)) + 1 = frames_sent st)).
Proof.
  assert (H0 : cycles (sender_loop_start clk) = [] /\ frames_sent (sender_loop_start clk) = 0)
    by (unfold sender_loop_start; destruct (clock_now clk); split; reflexivity).
  pose proof (sender_run_cycles (sender_loop_start clk) frames) as H.
  destruct H0 as [Hc Hf]. rewrite Hc, Hf in H. specialize (H (Forall_nil _)).
  destruct (sender_run (sender_loop_start clk) frames) as [st err].
  destruct H as [Hall Hlen]. split; [exact Hall|]. cbn [length Z.of_nat] in Hlen.
  destruct Hlen as [Hl|[He Hl]]; [left; lia | right; split; [exact He | lia]].
Qed.

Lemma wire_bytes_app (o1 o2 : list conn_op) :
  wire_bytes (o1 ++ o2) = wire_bytes o1 ++ wire_bytes o2.
Proof.
  induction o1 as [|[bs|] o1 IH]; cbn; [reflexivity | rewrite IH, app_assoc; reflexivity | exact IH].
Qed.

Lemma frames_of_app (Image : Type) (o1 o2 : list (out Image)) :
  frames_of (o1 ++ o2) = frames_of o1 ++ frames_of o2.
Proof.
  induction o1 as [|[img|e|v] o1 IH]; cbn; [reflexivity | rewrite IH; reflexivity | exact IH | exact IH].
Qed.

Lemma frames_of_fps_outs (Image : Type) (r : fps_result) :
  frames_of (@fps_outs Image r) = [].
Proof. destruct r; reflexivity. Qed.

Lemma sent_ops_envelope (j : list Byte.byte) :
  Z.of_nat (length j) < 2 ^ 32 -> encode_envelope j = Some (wire_bytes (sent_ops j)).
Proof.
  intros Hj. pose proof (compress_and_send_frame_ok j) as Hc.
  unfold encode_envelope, sent_ops.
  destruct (compress_and_send_frame j) as [[ops sz]|]; [reflexivity | lia].
Qed.

Lemma rx_run_envelopes (Image : Type) (decode : list Byte.byte -> option Image)
    (ps : list (list Byte.byte)) (rest : list Byte.byte) (evs : list event)
    (log : list Z) (fs : fps_state) (clk : list Q) :
  Forall (fun j => Z.of_nat (length j) < 2 ^ 32) ps ->
  frames_of (rx_run decode (length ps)
    (mk_rx (mk_port (wire_bytes (flat_map sent_ops ps) ++ rest) evs log) fs clk)) =
  decoded decode ps.
Proof.
  intros Hall. revert log fs clk.
  induction Hall as [|j ps Hj Hall IH]; intros log fs clk; [reflexivity|].
  cbn [flat_map length rx_run]. rewrite wire_bytes_app, <- app_assoc.
  destruct (recv_envelope j (wire_bytes (flat_map sent_ops ps) ++ rest) evs log Hj)
    as [E [HE [log' Hr]]].
  rewrite (sent_ops_envelope j Hj) in HE. injection HE as <-.
  unfold rx_iter at 1. cbn [rx_port rx_fps rx_clock]. rewrite Hr.
  unfold decoded. cbn [flat_map]. fold (decoded decode ps).
  destruct (decode j) as [img|].
  - destruct (clock_now clk) as [t clk']. destruct (fps_tick fs t) as [fs' r].
    cbn [app frames_of]. rewrite frames_of_app, frames_of_fps_outs, IH. reflexivity.
  - cbn [app frames_of]. apply IH.
Qed.

(** End to end: the receiver, given the bytes a run of the sender loop wrote
    (whatever follows them on the line), signals in its first
    [frames_sent] iterations exactly the images of the sent frames that the
    decoder accepts, in the order they were sent. *)
Theorem sender_to_receiver (Image : Type) (decode : list Byte.byte -> option Image)
    (clk : list Q) (frames : list (list Byte.byte)) (rest : list Byte.byte)
    (evs : list event) (log : list Z) (fs : fps_state) (rclk : list Q) :
  let '(st, _) := sender_run (sender_loop_start clk) frames in
  frames_of (rx_run decode (Z.to_nat (frames_sent st))
    (mk_rx (mk_port (wire_bytes (serial_ops st) ++ rest) evs log) fs rclk)) =
  decoded decode (firstn (Z.to_nat (frames_sent st)) frames).
Proof.
  assert (H0 : serial_ops (sender_loop_start clk) = [] /\ frames_sent (sender_loop_start clk) = 0)
    by (unfold sender_loop_start; destruct (clock_now clk); split; reflexivity).
  pose proof (sender_run_prefix (sender_loop_start clk) frames) as H.
  destruct H0 as [Ho Hf]. rewrite Ho, Hf in H.
  destruct (sender_run (sender_loop_start clk) frames) as [st err].
  destruct H as [k [Hk [Hf' [Ho' [Hall _]]]]].
  rewrite Hf', Ho'. cbn [app]. rewrite Z.add_0_l, Nat2Z.id.
  assert (Hl : length (firstn k frames) = k) by (rewrite length_firstn; lia).
  rewrite <- Hl at 1. apply rx_run_envelopes. exact Hall.
Qed.

Import MainWindow.


Lemma fold_add_item (ps l : list string) (i : Z) :
  l <> [] -> fold_left add_item ps (mk_combo l i) = mk_combo (l ++ ps) i.
Proof.
  revert l. induction ps as [|q ps IH]; intros l Hl; cbn.
  - rewrite app_nil_r. reflexivity.
  - unfold add_item at 2. cbn [items current_index].
    destruct l as [|x l]; [congruence|].
    rewrite IH by (intros H; destruct l; discriminate).
    rewrite <- app_assoc. reflexivity.
Qed.

Lemma find_text_spec (l : list string) (s : string) :
  if existsb (fun q => String.eqb q s) l
  then 0 <= find_text l s /\ nth_error l (Z.to_nat (find_text l s)) = Some s
  else find_text l s = -1.
Proof.
  induction l as [|x l IH]; cbn; [reflexivity|].
  destruct (String.eqb x s) eqn:E.
  - apply String.eqb_eq in E. subst x. split; [lia | reflexivity].
  - destruct (existsb (fun q => String.eqb q s) l).
    + destruct IH as [H1 H2].
      replace (find_text l s <? 0) with false by (symmetry; apply Z.ltb_ge; lia).
      split; [lia|]. rewrite Z2Nat.inj_add by lia. rewrite Nat.add_comm. exact H2.
    + rewrite IH. reflexivity.
Qed.

Lemma update_port_list_cases (c : combo) (ports : list string) :
  let '(c', enabled) := update_port_list c ports in
  match ports with
  | [] => items c' = ["No ports available"%string] /\ current_text c' = "No ports available"%string /\
          enabled = false /\ connect_to_port c' = None
  | p :: _ =>
      items c' = ports /\ enabled = true /\
      current_text c' =
        (if existsb (fun q => String.eqb q (current_text c)) ports then current_text c else p)
  end.
Proof.
  unfold update_port_list.
  destruct ports as [|p ps]; [repeat split|].
  cbn [fold_left]. change (add_item (mk_combo [] (-1)) p) with (mk_combo [p] 0).
  rewrite fold_add_item by discriminate. cbn [items app current_index].
  pose proof (find_text_spec (p :: ps) (current_text c)) as Hf.
  destruct (existsb (fun q => String.eqb q (current_text c)) (p :: ps)).
  - destruct Hf as [H1 H2]. apply Z.leb_le in H1. rewrite H1.
    split; [reflexivity | split; [reflexivity|]].
    unfold current_text at 1. cbn [current_index items].
    apply Z.leb_le in H1. replace (find_text (p :: ps) (current_text c) <? 0) with false
      by (symmetry; apply Z.ltb_ge; lia).
    rewrite H2. reflexivity.
  - rewrite Hf. cbn. repeat split.
Qed.

(** Refreshing the port list: with no ports the box holds only the
    placeholder, the connect button is disabled and connecting is refused;
    otherwise the box holds exactly the ports found, the button is enabled,
    and the previous selection is kept when it is still listed, the first
    port being selected otherwise. *)
Theorem update_port_list_spec (c : combo) (ports : list string) :
  let '(c', enabled) := update_port_list c ports in
  match ports with
  | [] => items c' = ["No ports available"%string] /\ current_text c' = "No ports available"%string /\
          enabled = false /\ connect_to_port c' = None
  | p :: _ =>
      items c' = ports /\ enabled = true /\
      current_text c' =
        (if existsb (fun q => String.eqb q (current_text c)) ports then current_text c else p)
  end.
Proof. exact (update_port_list_cases c ports). Qed.

(** After a refresh that found ports, none of them empty or equal to the
    placeholder text, connecting always starts a receiver on one of the
    listed ports. *)
Theorem refresh_then_connect (c : combo) (ports : list string) :
  ports <> [] ->
  Forall (fun q => q <> ""%string /\ q <> "No ports available"%string) ports ->
  exists q, connect_to_port (fst (update_port_list c ports)) = Some q /\ In q ports.
Proof.
  intros Hne Hall.
  pose proof (update_port_list_cases c ports) as H.
  destruct ports as [|p ps]; [congruence|].
  destruct (update_port_list c (p :: ps)) as [c' en]. cbn [fst].
  destruct H as [_ [_ Ht]].
  assert (Hin : In (current_text c') (p :: ps)).
  { rewrite Ht. destruct (existsb (fun q => String.eqb q (current_text c)) (p :: ps)) eqn:E.
    - apply existsb_exists in E as [x [Hx Ex]]. apply String.eqb_eq in Ex. subst x. exact Hx.
    - left. reflexivity. }
  exists (current_text c'). split; [|exact Hin].
  rewrite Forall_forall in Hall. destruct (Hall _ Hin) as [H1 H2].
  unfold connect_to_port.
  apply String.eqb_neq in H1. apply String.eqb_neq in H2. rewrite H1, H2. reflexivity.
Qed.

Lemma refresh_then_connect_witness :
  connect_to_port (fst (update_port_list (mk_combo ["COM3"%string; "COM4"%string] 1)
                                         ["COM4"%string; "COM5"%string])) = Some "COM4"%string /\
  exists q, connect_to_port (fst (update_port_list (mk_combo ["COM3"%string; "COM4"%string] 1)
                                         ["COM4"%string; "COM5"%string])) = Some q /\
    In q ["COM4"%string; "COM5"%string].
Proof.
  split; [reflexivity|].
  apply refresh_then_connect.
  - discriminate.
  - repeat constructor; discriminate.
Defined.

(** The receiver's [frames_received] counts exactly the frames it signals:
    an iteration adds one per emitted image and nothing for a dropped
    frame or a decode error, and [start_time] never changes. *)
Theorem rx_iter_frame_count (Image : Type) (decode : list Byte.byte -> option Image)
    (s s' : rx_state) (o : list (out Image)) :
  rx_iter decode s = (o, Some s') ->
  frames_received (rx_fps s') = frames_received (rx_fps s) + Z.of_nat (length (frames_of o)) /\
  start_time (rx_fps s') = start_time (rx_fps s).
Proof.
  unfold rx_iter.
  destruct (recv_frame_bytes (rx_port s)) as [[[d|] p]|]; [| | discriminate].
  - destruct (decode d) as [img|].
    + destruct (clock_now (rx_clock s)) as [t clk].
      pose proof (fps_tick_spec (rx_fps s) t) as Hf.
      destruct (fps_tick (rx_fps s) t) as [fs r].
      intros E; injection E as <- <-. cbn [rx_fps frames_of].
      rewrite frames_of_fps_outs. cbn [length Z.of_nat].
      destruct r as [|v|];
        [destruct Hf as [_ [Hc Hs]] | destruct Hf as [_ [_ [Hc [Hs _]]]] | destruct Hf as [_ [Hc Hs]]];
        (split; [lia | exact Hs]).
    + intros E; injection E as <- <-. cbn. split; [lia | reflexivity].
  - intros E; injection E as <- <-. cbn. split; [lia | reflexivity].
Qed.

Lemma rx_iter_frame_count_witness :
  rx_iter (fun d : list Byte.byte => Some d)
    (mk_rx (mk_port [Byte.x00; Byte.x00; Byte.x00; Byte.x01; Byte.x2a] [] []) (mk_fps 0 0 0) [2%Q])
    = ([OFrame [Byte.x2a]; OFps (1 # 2)%Q],
       Some (mk_rx (mk_port [] [] [4; 1]) (mk_fps 1 0 2) [])) /\
  frames_received (mk_fps 1 0 2) = frames_received (mk_fps 0 0 0) +
    Z.of_nat (length (frames_of [@OFrame (list Byte.byte) [Byte.x2a]; OFps (1 # 2)%Q])) /\
  start_time (mk_fps 1 0 2) = start_time (mk_fps 0 0 0).
Proof.
  split; [vm_compute; reflexivity|].
  exact (rx_iter_frame_count (list Byte.byte) (fun d => Some d)
    (mk_rx (mk_port [Byte.x00; Byte.x00; Byte.x00; Byte.x01; Byte.x2a] [] []) (mk_fps 0 0 0) [2%Q])
    (mk_rx (mk_port [] [] [4; 1]) (mk_fps 1 0 2) []) [OFrame [Byte.x2a]; OFps (1 # 2)%Q] eq_refl).
Defined.
